(** * execx: richer exit errors for os/exec

    A shallow embedding of package [execx] (file execx.go) and the
    properties of its command-line renderer, its error wrapper [Wrap] and
    the accessors and formatter of the decorated [ExitError].

    Go values are modelled as the code has them:
    - a slice [[]T] is [option (list T)]: [None] is the nil slice, [Some l]
      a non-nil slice holding [l] (nil and empty differ for [cmd.Env]);
    - a pointer [*T] is [option T]: [None] is the nil pointer; objects whose
      pointer identity the code compares carry their address;
    - a run-time panic is the [Panic] result of the [result] monad;
    - the process-wide state [Wrap] reads (environment, working directory)
      is an explicit [World] argument. *)

From Stdlib Require Import Ascii.
From Stdlib Require String.
From stdpp Require Import base option list strings pretty gmap fin_maps.

(** ** Results: a Go call either returns or panics *)

Inductive panic : Type :=
| NilDereference        (* invalid memory address or nil pointer dereference *)
| SliceBounds (low high : nat).   (* slice bounds out of range [low:high] *)

Inductive result (A : Type) : Type :=
| Ok (a : A)
| Panic (p : panic).

Arguments Ok {A} a.
Arguments Panic {A} p.

#[global] Instance result_ret : MRet result := fun A a => Ok a.
#[global] Instance result_bind : MBind result := fun A B f m =>
  match m with
  | Ok a => f a
  | Panic p => Panic p
  end.

Definition returns {A} (m : result A) : bool :=
  match m with Ok _ => true | Panic _ => false end.

(** ** Slices and pointers *)

Definition slice (A : Type) : Type := option (list A).

Definition slice_elems {A} (s : slice A) : list A := default [] s.

(** [len(s)] *)
Definition len {A} (s : slice A) : nat := length (slice_elems s).

(** [s[low:]]: the high bound defaults to [len(s)], and the run-time check
    [low <= high] panics otherwise. *)
Definition slice_from {A} (s : slice A) (low : nat) : result (slice A) :=
  if decide (low ≤ len s)
  then Ok (match s with
           | None => None
           | Some l => Some (drop low l)
           end)
  else Panic (SliceBounds low (len s)).

(** [append(s, xs...)]: appending nothing to a nil slice leaves it nil. *)
Definition append {A} (s : slice A) (xs : list A) : slice A :=
  match s, xs with
  | None, [] => None
  | _, _ => Some (slice_elems s ++ xs)
  end.

Definition ptr (A : Type) : Type := option A.

(** [p.f] for a pointer [p]: a nil [p] panics. *)
Definition deref {A} (p : ptr A) : result A :=
  match p with
  | Some a => Ok a
  | None => Panic NilDereference
  end.

(** ** Standard library: strings.Join and filepath.Base (Unix) *)

(** [strings.Join(elems, sep)] *)
Definition strings_Join (elems : slice string) (sep : string) : string :=
  String.concat sep (slice_elems elems).

Definition IsPathSeparator (c : ascii) : bool := Ascii.eqb c "/"%char.

Fixpoint drop_while {A} (f : A → bool) (l : list A) : list A :=
  match l with
  | [] => []
  | x :: l' => if f x then drop_while f l' else l
  end.

Fixpoint take_while {A} (f : A → bool) (l : list A) : list A :=
  match l with
  | [] => []
  | x :: l' => if f x then x :: take_while f l' else []
  end.

(** [filepath.Base]: the empty path gives ".", trailing separators are
    stripped, the part after the last separator is kept, and a path of
    separators only gives "/". Both loops of the library run from the end
    of the path, so they are written over the reversed characters. *)
Definition filepath_Base (path : string) : string :=
  if decide (path = "") then "." else
  let stripped := drop_while IsPathSeparator (rev (String.list_ascii_of_string path)) in
  let last := rev (take_while (fun c => negb (IsPathSeparator c)) stripped) in
  let path := String.string_of_list_ascii last in
  if decide (path = "") then "/" else path.

(** A path segment: not empty and free of separators. *)
Definition segment (name : string) : Prop :=
  name ≠ "" ∧ Forall (fun c => IsPathSeparator c = false) (String.list_ascii_of_string name).

(** ** The command-line renderer *)

Definition cmdline (path : string) (args : slice string) : result string :=
  let cmdline : slice string := None in
  let cmdline := append cmdline [filepath_Base path] in
  rest ← slice_from args 1;
  let cmdline := append cmdline (slice_elems rest) in
  mret (strings_Join cmdline " ").

(** ** Package os: process state and the process-wide state *)

Module os.

(** [os.ProcessState], the record of a completed process. The code compares
    pointers to it, so the record carries its address; of its contents only
    what the methods used by execx return is kept. *)
Record ProcessState : Type := {
  addr : N;
  status : string;          (* the text of String(), such as "exit status 1" *)
  utime : Z;                (* user CPU time, a time.Duration in nanoseconds *)
  stime : Z                 (* system CPU time *)
}.

(** [p == q] on [*os.ProcessState]: pointer identity. *)
Definition ProcessState_eqb (p q : ptr ProcessState) : bool :=
  match p, q with
  | None, None => true
  | Some a, Some b => N.eqb (addr a) (addr b)
  | _, _ => false
  end.

(** Method [String] of [*ProcessState]: a nil receiver is printed, not
    dereferenced. *)
Definition String (p : ptr ProcessState) : string :=
  match p with
  | None => "<nil>"
  | Some ps => status ps
  end.

(** Methods [UserTime] and [SystemTime] of [*ProcessState] read the resource
    usage through the receiver. *)
Definition UserTime (p : ptr ProcessState) : result Z :=
  ps ← deref p; mret (utime ps).

Definition SystemTime (p : ptr ProcessState) : result Z :=
  ps ← deref p; mret (stime ps).

End os.

(** ** Package os/exec *)

Module exec.

Module ExitError.
(** [exec.ExitError] embeds [*os.ProcessState]; [Stderr] is nil unless the
    standard error of the child was collected. *)
Record t : Type := {
  addr : N;
  ProcessState : ptr os.ProcessState;
  Stderr : slice Byte.byte
}.

(** Method [Error] of [*exec.ExitError] returns [e.ProcessState.String()]. *)
Definition Error (e : ptr t) : result string :=
  ee ← deref e; mret (os.String (ProcessState ee)).

(** The promoted methods [e.UserTime()] and [e.SystemTime()]. *)
Definition UserTime (e : ptr t) : result Z :=
  ee ← deref e; os.UserTime (ProcessState ee).

Definition SystemTime (e : ptr t) : result Z :=
  ee ← deref e; os.SystemTime (ProcessState ee).
End ExitError.

Module Cmd.
(** The fields of [exec.Cmd] that execx reads. *)
Record t : Type := {
  Path : string;
  Args : slice string;
  Env : slice string;
  Dir : string;
  ProcessState : ptr os.ProcessState
}.
End Cmd.

End exec.

(** ** Package env (acln.ro/env) and the formatting of durations

    The environment package is a dependency whose code is not part of
    execx: its operations are the fields of an interface, and every theorem
    below holds for each implementation of it. *)

Module env.

Abbreviation Map := (gmap string string).

Class Pkg : Type := {
  (** [env.Variables()], as a function of the process environment *)
  Variables : list string → Map;
  (** [env.Parse(vars...)] *)
  Parse : list string → Map;
  (** the text of [fmt.Sprintf("%+v", m)] for a Map [m] *)
  FormatDetail : Map → string
}.

(** Modelled from the spec: the merge of two mappings of the environment
    package, whose code is not part of execx; right-hand entries override
    left-hand ones on key collision. *)
Definition Merge (a b : Map) : Map := b ∪ a.

End env.

Module time.
Class Pkg : Type := {
  (** [time.Duration.String], the text of a duration under the verb v *)
  Duration_String : Z → string
}.
End time.

(** ** Package fmt: the state handed to a Formatter

    [flags] are the flags of the directive being formatted, [buf] the
    output written so far. The same value stands for the [io.Writer] that
    [Format] hands to its helpers. *)

Module fmt.

Record State : Type := {
  flags : list ascii;
  buf : string
}.

(** [s.Flag(c)] *)
Definition Flag (s : State) (c : ascii) : bool := bool_decide (c ∈ flags s).

(** [fmt.Fprintf(w, ...)] with the directive already expanded to [text]. *)
Definition Fprintf (w : State) (text : string) : State :=
  {| flags := flags w; buf := buf w +:+ text |}.

(** The verb v as a rune. *)
Definition verb_v : Z := 118.

(** The line feed that the directives of execx spell as a backslash and n. *)
Definition LF : string := String (ascii_of_nat 10) EmptyString.

End fmt.

(** ** Package execx *)

(** [Cmdline(cmd)] reads the fields of [cmd] through the pointer. *)
Definition Cmdline (cmd : ptr exec.Cmd.t) : result string :=
  c ← deref cmd; cmdline (exec.Cmd.Path c) (exec.Cmd.Args c).

Module ExitError.

(** The decorated error. [Wrap] returns a pointer to a freshly allocated
    value and no code compares such pointers, so the methods below take the
    value their (non-nil) receiver points to. *)
Record t : Type := {
  ExitError : ptr exec.ExitError.t;      (* the embedded *exec.ExitError *)
  Path : string;
  Args : slice string;
  Dir : string;
  ParentEnv : env.Map;
  ChildEnv : env.Map
}.

Definition set_Dir (e : t) (dir : string) : t :=
  {| ExitError := ExitError e; Path := Path e; Args := Args e; Dir := dir;
     ParentEnv := ParentEnv e; ChildEnv := ChildEnv e |}.

Definition set_ChildEnv (e : t) (m : env.Map) : t :=
  {| ExitError := ExitError e; Path := Path e; Args := Args e; Dir := Dir e;
     ParentEnv := ParentEnv e; ChildEnv := m |}.

End ExitError.

(** A value of the interface type [error]: nil, or a dynamic type with its
    value. [error_foreign id] is a value, identified by [id], of any dynamic
    type other than the two pointer types named below. *)
Inductive error : Type :=
| error_nil
| error_foreign (id : N)
| error_exec (ee : ptr exec.ExitError.t)      (* dynamic type *exec.ExitError *)
| error_execx (e : ExitError.t).              (* dynamic type *execx.ExitError *)

(** What [Wrap] reads of the process: the environment that
    [env.Variables()] snapshots and the pair that [os.Getwd()] returns. *)
Record World : Type := {
  Environ : list string;
  Getwd : string * error
}.

(** *** The methods of [*ExitError] *)

Definition ExitError_Cmdline (e : ExitError.t) : result string :=
  cmdline (ExitError.Path e) (ExitError.Args e).

Definition ExitError_Unwrap (e : ExitError.t) : error :=
  error_exec (ExitError.ExitError e).

Definition ExitError_Error (e : ExitError.t) : result string :=
  exec.ExitError.Error (ExitError.ExitError e).

Definition formatBasic (e : ExitError.t) (w : fmt.State) : result fmt.State :=
  cl ← ExitError_Cmdline e;
  msg ← exec.ExitError.Error (ExitError.ExitError e);
  let w := fmt.Fprintf w (cl +:+ ": " +:+ msg) in
  ee ← deref (ExitError.ExitError e);
  match exec.ExitError.Stderr ee with
  | Some bytes => mret (fmt.Fprintf w (": " +:+ String.string_of_list_byte bytes))
  | None => mret w
  end.

Section Format.
Context {envp : env.Pkg} {timep : time.Pkg}.

Definition formatDetail (e : ExitError.t) (w : fmt.State) : result fmt.State :=
  w ← formatBasic e w;
  let w := fmt.Fprintf w fmt.LF in
  let w := fmt.Fprintf w ("workdir: " +:+ ExitError.Dir e +:+ fmt.LF) in
  ut ← exec.ExitError.UserTime (ExitError.ExitError e);
  let w := fmt.Fprintf w ("user time: " +:+ time.Duration_String ut +:+ fmt.LF) in
  st ← exec.ExitError.SystemTime (ExitError.ExitError e);
  let w := fmt.Fprintf w ("system time: " +:+ time.Duration_String st +:+ fmt.LF) in
  let w := fmt.Fprintf w fmt.LF in
  mret (fmt.Fprintf w (env.FormatDetail (ExitError.ChildEnv e))).

Definition ExitError_Format (e : ExitError.t) (s : fmt.State) (verb : Z) : result fmt.State :=
  if decide (verb ≠ fmt.verb_v) then mret s else
  if fmt.Flag s "+"%char then formatDetail e s else formatBasic e s.

End Format.

(** *** Wrap *)

Section Wrap.
Context {envp : env.Pkg}.

Definition Wrap (w : World) (err : error) (cmd : ptr exec.Cmd.t) : result error :=
  match err with
  | error_nil => mret error_nil
  | error_exec ee =>
      e ← deref ee;
      c ← deref cmd;
      if negb (os.ProcessState_eqb (exec.ExitError.ProcessState e) (exec.Cmd.ProcessState c))
      then mret (error_exec ee)
      else
        let newee := {| ExitError.ExitError := ee;
                        ExitError.Path := exec.Cmd.Path c;
                        ExitError.Args := exec.Cmd.Args c;
                        ExitError.Dir := exec.Cmd.Dir c;
                        ExitError.ParentEnv := env.Variables (Environ w);
                        ExitError.ChildEnv := ∅ |} in
        let newee :=
          if decide (ExitError.Dir newee = "")
          then let '(wd, err) := Getwd w in
               match err with
               | error_nil => ExitError.set_Dir newee wd
               | _ => newee
               end
          else newee in
        let newee :=
          match exec.Cmd.Env c with
          | None => ExitError.set_ChildEnv newee (ExitError.ParentEnv newee)
          | Some vars => ExitError.set_ChildEnv newee (env.Parse vars)
          end in
        mret (error_execx newee)
  | _ => mret err
  end.

End Wrap.

(** The type assertion of [Wrap]: the dynamic type is [*exec.ExitError]. *)
Definition is_exit_error (err : error) : bool :=
  match err with
  | error_exec _ => true
  | _ => false
  end.

(** A matched wrap call: the error is an exit error of [os/exec], the
    command is present, and both point to the same process state. *)
Definition matched (err : error) (cmd : ptr exec.Cmd.t) : bool :=
  match err, cmd with
  | error_exec (Some ee), Some c =>
      os.ProcessState_eqb (exec.ExitError.ProcessState ee) (exec.Cmd.ProcessState c)
  | _, _ => false
  end.

(** ** An implementation of the interfaces, and sample values

    Used to evaluate the definitions on concrete inputs. *)

Module model.

(** The key before the first equals sign and the value after it. *)
Fixpoint split_var (v : string) : option (string * string) :=
  match v with
  | EmptyString => None
  | String c v' =>
      if Ascii.eqb c "="%char then Some (EmptyString, v')
      else (fun kv => (String c kv.1, kv.2)) <$> split_var v'
  end.

(** Modelled from the spec: the parse of a KEY=VALUE sequence into a
    mapping, of the environment package whose code is not part of execx. A
    later entry overrides an earlier one with the same key; an entry without
    an equals sign, about which the spec says nothing, is skipped. *)
Definition Parse (vars : list string) : env.Map :=
  foldl (fun m v => match split_var v with
                    | Some (k, val) => <[k := val]> m
                    | None => m
                    end) ∅ vars.

(** Modelled from the spec: the detailed multi-line rendering of a mapping,
    here one KEY=VALUE line per entry. *)
Definition FormatDetail (m : env.Map) : string :=
  String.concat fmt.LF ((fun kv => kv.1 +:+ "=" +:+ kv.2) <$> map_to_list m).

#[export] Instance env_pkg : env.Pkg :=
  {| env.Variables := Parse; env.Parse := Parse; env.FormatDetail := FormatDetail |}.

(** Durations below one microsecond, which Go prints as a count of
    nanoseconds (and zero as 0s). *)
Definition Duration_String (d : Z) : string :=
  if decide (d = 0%Z) then "0s" else pretty d +:+ "ns".

#[export] Instance time_pkg : time.Pkg :=
  {| time.Duration_String := Duration_String |}.

Definition ps1 : os.ProcessState :=
  {| os.addr := 1; os.status := "exit status 1"; os.utime := 250; os.stime := 0 |}.

Definition ps2 : os.ProcessState :=
  {| os.addr := 2; os.status := "exit status 1"; os.utime := 300; os.stime := 10 |}.

Definition whoops : list Byte.byte := String.list_byte_of_string "whoops".

Definition ee1 : exec.ExitError.t :=
  {| exec.ExitError.addr := 11; exec.ExitError.ProcessState := Some ps1;
     exec.ExitError.Stderr := Some whoops |}.

Definition ee2 : exec.ExitError.t :=
  {| exec.ExitError.addr := 12; exec.ExitError.ProcessState := Some ps2;
     exec.ExitError.Stderr := None |}.

(** A command run in the inherited directory with an explicit environment. *)
Definition cmd1 : exec.Cmd.t :=
  {| exec.Cmd.Path := "/usr/bin/git";
     exec.Cmd.Args := Some ["git"; "fetch"; "something"];
     exec.Cmd.Env := Some ["EXECX_TEST=on"];
     exec.Cmd.Dir := "";
     exec.Cmd.ProcessState := Some ps1 |}.

(** A command with its own directory that inherits the environment. *)
Definition cmd2 : exec.Cmd.t :=
  {| exec.Cmd.Path := "/bin/ls";
     exec.Cmd.Args := Some ["ls"];
     exec.Cmd.Env := None;
     exec.Cmd.Dir := "/srv";
     exec.Cmd.ProcessState := Some ps2 |}.

Definition world1 : World :=
  {| Environ := ["HOME=/root"; "PATH=/usr/bin"]; Getwd := ("/home/user", error_nil) |}.

(** A process whose working directory was removed: [os.Getwd] fails. *)
Definition world2 : World :=
  {| Environ := ["HOME=/root"]; Getwd := ("", error_foreign 7) |}.

(** The decoration of [ee1] for [cmd1] in [world1]. *)
Definition xe1 : ExitError.t :=
  {| ExitError.ExitError := Some ee1;
     ExitError.Path := "/usr/bin/git";
     ExitError.Args := Some ["git"; "fetch"; "something"];
     ExitError.Dir := "/home/user";
     ExitError.ParentEnv := Parse ["HOME=/root"; "PATH=/usr/bin"];
     ExitError.ChildEnv := Parse ["EXECX_TEST=on"] |}.

(** A decorated error whose exit error captured an empty standard error. *)
Definition xe_empty_stderr : ExitError.t :=
  {| ExitError.ExitError :=
       Some {| exec.ExitError.addr := 13; exec.ExitError.ProcessState := Some ps2;
               exec.ExitError.Stderr := Some [] |};
     ExitError.Path := "/bin/ls";
     ExitError.Args := Some ["ls"; "-l"];
     ExitError.Dir := "/srv";
     ExitError.ParentEnv := ∅;
     ExitError.ChildEnv := ∅ |}.

(** A command built as a literal, without arguments, that shares the
    process state of [ee1]. *)
Definition cmd_noargs : exec.Cmd.t :=
  {| exec.Cmd.Path := "/bin/ls";
     exec.Cmd.Args := None;
     exec.Cmd.Env := None;
     exec.Cmd.Dir := "/srv";
     exec.Cmd.ProcessState := Some ps1 |}.

(** The zero [exec.ExitError] and a command that was never run: both hold a
    nil process state. *)
Definition ee_zero : exec.ExitError.t :=
  {| exec.ExitError.addr := 14; exec.ExitError.ProcessState := None;
     exec.ExitError.Stderr := None |}.

Definition cmd_never_run : exec.Cmd.t :=
  {| exec.Cmd.Path := "/bin/true";
     exec.Cmd.Args := Some ["true"];
     exec.Cmd.Env := None;
     exec.Cmd.Dir := "";
     exec.Cmd.ProcessState := None |}.

Definition state0 : fmt.State := {| fmt.flags := []; fmt.buf := "" |}.
Definition state_plus : fmt.State := {| fmt.flags := ["+"%char]; fmt.buf := "" |}.

End model.

(** * Evaluation on the sample values *)

Section Examples.
Import model.

Example filepath_Base_examples :
  filepath_Base "" = "." ∧ filepath_Base "///" = "/" ∧ filepath_Base "a//b//" = "b"
  ∧ filepath_Base "git" = "git" ∧ filepath_Base "/usr/bin/git" = "git".
Proof. repeat split. Qed.

Example Wrap_cmd1 :
  match Wrap world1 (error_exec (Some ee1)) (Some cmd1) with
  | Ok (error_execx e) =>
      ExitError.Dir e = "/home/user"
      ∧ ExitError.ChildEnv e !! "EXECX_TEST" = Some "on"
      ∧ ExitError.ChildEnv e !! "HOME" = None
      ∧ ExitError.ParentEnv e !! "HOME" = Some "/root"
      ∧ ExitError_Format e state0 fmt.verb_v
        = Ok {| fmt.flags := []; fmt.buf := "git fetch something: exit status 1: whoops" |}
  | _ => False
  end.
Proof. vm_compute. repeat split. Qed.

Example Wrap_cmd1_xe1 :
  Wrap world1 (error_exec (Some ee1)) (Some cmd1) = Ok (error_execx xe1).
Proof. reflexivity. Qed.

(** Errors and commands of two invocations, swapped: both pass through. *)
Example Wrap_swapped :
  Wrap world1 (error_exec (Some ee1)) (Some cmd2) = Ok (error_exec (Some ee1))
  ∧ Wrap world1 (error_exec (Some ee2)) (Some cmd1) = Ok (error_exec (Some ee2)).
Proof. split; reflexivity. Qed.

(** Wrapping a decorated error again returns it as it is. *)
Example Wrap_twice :
  Wrap world1 (error_execx xe1) (Some cmd1) = Ok (error_execx xe1).
Proof. reflexivity. Qed.

Example Cmdline_examples :
  Cmdline (Some cmd1) = Ok "git fetch something"
  ∧ Cmdline (Some cmd2) = Ok "ls"
  ∧ cmdline "/bin/ls" None = Panic (SliceBounds 1 0).
Proof. repeat split. Qed.

Example Format_cmd2_detail :
  match Wrap world2 (error_exec (Some ee2)) (Some cmd2) with
  | Ok (error_execx e) =>
      ExitError_Format e state_plus fmt.verb_v
      = Ok (fmt.Fprintf state_plus
              ("ls: exit status 1" +:+ fmt.LF +:+ "workdir: /srv" +:+ fmt.LF
               +:+ "user time: 300ns" +:+ fmt.LF +:+ "system time: 10ns" +:+ fmt.LF
               +:+ fmt.LF +:+ "HOME=/root"))
  | _ => False
  end.
Proof. vm_compute. reflexivity. Qed.

End Examples.

(** * Strings, slices and the base name *)

Lemma append_cons (x : ascii) (a b : string) :
  String x a +:+ b = String x (a +:+ b).
Proof. reflexivity. Qed.

Lemma append_assoc (a b c : string) : (a +:+ b) +:+ c = a +:+ (b +:+ c).
Proof.
  induction a as [|x a IH]; [reflexivity|].
  by rewrite !append_cons, IH.
Qed.

Lemma append_empty_r (a : string) : a +:+ "" = a.
Proof.
  induction a as [|x a IH]; [reflexivity|].
  by rewrite append_cons, IH.
Qed.

Lemma list_ascii_of_string_append (a b : string) :
  String.list_ascii_of_string (a +:+ b)
  = String.list_ascii_of_string a ++ String.list_ascii_of_string b.
Proof.
  induction a as [|x a IH]; [reflexivity|].
  rewrite append_cons. simpl. by rewrite IH.
Qed.

Lemma take_while_app_stop {A} (f : A → bool) (l r : list A) (x : A) :
  Forall (fun y => f y = true) l → f x = false →
  take_while f (l ++ x :: r) = l.
Proof.
  intros Hl Hx. induction Hl as [|y l Hy _ IH]; simpl.
  - by rewrite Hx.
  - by rewrite Hy, IH.
Qed.

Lemma take_while_all {A} (f : A → bool) (l : list A) :
  Forall (fun y => f y = true) l → take_while f l = l.
Proof.
  intros Hl. induction Hl as [|y l Hy _ IH]; simpl; [reflexivity|].
  by rewrite Hy, IH.
Qed.

Lemma drop_while_keep {A} (f : A → bool) (l r : list A) :
  l ≠ [] → Forall (fun y => f y = false) l → drop_while f (l ++ r) = l ++ r.
Proof.
  intros Hne Hl. destruct Hl as [|y l Hy _]; [done|].
  simpl. by rewrite Hy.
Qed.

Lemma drop_while_keep_all {A} (f : A → bool) (l : list A) :
  l ≠ [] → Forall (fun y => f y = false) l → drop_while f l = l.
Proof.
  intros Hne Hl. rewrite <- (app_nil_r l) at 1.
  rewrite drop_while_keep by done. apply app_nil_r.
Qed.

Lemma segment_rev name :
  segment name →
  rev (String.list_ascii_of_string name) ≠ []
  ∧ Forall (fun c => IsPathSeparator c = false) (rev (String.list_ascii_of_string name))
  ∧ Forall (fun c => negb (IsPathSeparator c) = true) (rev (String.list_ascii_of_string name)).
Proof.
  intros [Hne Hall]. split; [|split].
  - destruct name; [done|]. simpl. intros Hnil.
    by apply app_eq_nil in Hnil as [_ ?].
  - by apply Forall_rev.
  - apply Forall_rev. eapply Forall_impl; [exact Hall|].
    intros c Hc. by rewrite Hc.
Qed.

(** The base name of a path that ends in a segment is that segment, whether
    the segment is the whole path or follows a separator. *)
Lemma filepath_Base_segment (name : string) :
  segment name → filepath_Base name = name.
Proof.
  intros Hseg. pose proof (segment_rev _ Hseg) as (Hne & Hsep & Hnot).
  destruct Hseg as [Hname _]. unfold filepath_Base.
  rewrite decide_False by done.
  rewrite drop_while_keep_all by done.
  rewrite take_while_all, rev_involutive, String.string_of_list_ascii_of_string by done.
  by rewrite decide_False.
Qed.

Lemma filepath_Base_last_segment (dir name : string) :
  segment name → filepath_Base (dir +:+ "/" +:+ name) = name.
Proof.
  intros Hseg. pose proof (segment_rev _ Hseg) as (Hne & Hsep & Hnot).
  destruct Hseg as [Hname _]. unfold filepath_Base.
  rewrite decide_False by (destruct dir; done).
  rewrite !list_ascii_of_string_append, !rev_app_distr. simpl.
  rewrite <- !app_assoc. simpl.
  rewrite drop_while_keep by done.
  rewrite take_while_app_stop by done.
  rewrite rev_involutive, String.string_of_list_ascii_of_string.
  by rewrite decide_False.
Qed.

Lemma slice_from_1_cons {A} (x : A) (l : list A) :
  slice_from (Some (x :: l)) 1 = Ok (Some l).
Proof. reflexivity. Qed.

Lemma slice_from_1_empty {A} (s : slice A) :
  len s = 0 → slice_from s 1 = Panic (SliceBounds 1 0).
Proof.
  intros Hlen. unfold slice_from. rewrite Hlen.
  by rewrite decide_False by lia.
Qed.

Lemma cmdline_cons (path arg0 : string) (rest : list string) :
  cmdline path (Some (arg0 :: rest)) = Ok (String.concat " " (filepath_Base path :: rest)).
Proof. reflexivity. Qed.

(** * The command-line renderer *)

(** C6: for every path and every non-empty argument sequence the renderer
    returns the base name of the path followed by the arguments from index 1
    onward, joined with single spaces; the base name is the last segment of
    a path that ends in one; and rendering /usr/bin/git with the arguments
    git, fetch, something gives "git fetch something". *)
Theorem cmdline_base_then_tail (path arg0 : string) (rest : list string) :
  cmdline path (Some (arg0 :: rest))
  = Ok (String.concat " " (filepath_Base path :: drop 1 (arg0 :: rest)))
  ∧ (∀ dir name, segment name →
       cmdline (dir +:+ "/" +:+ name) (Some (arg0 :: rest))
       = Ok (String.concat " " (name :: rest)))
  ∧ cmdline "/usr/bin/git" (Some ["git"; "fetch"; "something"])
    = Ok "git fetch something".
Proof.
  split; [apply cmdline_cons | split; [|reflexivity]].
  intros dir name Hseg.
  by rewrite cmdline_cons, filepath_Base_last_segment.
Qed.

(** C2: the renderer is not total. It returns a string exactly when the
    argument sequence holds at least one element; on the empty argument
    sequence, nil or empty, the slice expression args[1:] panics, for every
    path. *)
Theorem cmdline_returns_iff_args_nonempty (path : string) (args : slice string) :
  returns (cmdline path args) = bool_decide (1 ≤ len args)
  ∧ cmdline path None = Panic (SliceBounds 1 0)
  ∧ cmdline path (Some []) = Panic (SliceBounds 1 0).
Proof.
  split; [|split; reflexivity].
  destruct args as [[|arg0 rest]|]; reflexivity.
Qed.

(** * Wrap *)

Section WrapProperties.
Context {envp : env.Pkg}.

Lemma Wrap_nil (w : World) (cmd : ptr exec.Cmd.t) :
  Wrap w error_nil cmd = Ok error_nil.
Proof. reflexivity. Qed.

Lemma Wrap_not_exit_error (w : World) (err : error) (cmd : ptr exec.Cmd.t) :
  is_exit_error err = false → Wrap w err cmd = Ok err.
Proof. by destruct err. Qed.

Lemma Wrap_mismatch (w : World) (ee : exec.ExitError.t) (c : exec.Cmd.t) :
  os.ProcessState_eqb (exec.ExitError.ProcessState ee) (exec.Cmd.ProcessState c) = false →
  Wrap w (error_exec (Some ee)) (Some c) = Ok (error_exec (Some ee)).
Proof. intros Hne. unfold Wrap. simpl. by rewrite Hne. Qed.

(** The decorated error of a matched call, field by field. *)
Lemma Wrap_matched (w : World) (ee : exec.ExitError.t) (c : exec.Cmd.t) :
  os.ProcessState_eqb (exec.ExitError.ProcessState ee) (exec.Cmd.ProcessState c) = true →
  Wrap w (error_exec (Some ee)) (Some c)
  = Ok (error_execx
          {| ExitError.ExitError := Some ee;
             ExitError.Path := exec.Cmd.Path c;
             ExitError.Args := exec.Cmd.Args c;
             ExitError.Dir :=
               if decide (exec.Cmd.Dir c = "")
               then match Getwd w with
                    | (wd, error_nil) => wd
                    | _ => ""
                    end
               else exec.Cmd.Dir c;
             ExitError.ParentEnv := env.Variables (Environ w);
             ExitError.ChildEnv :=
               match exec.Cmd.Env c with
               | None => env.Variables (Environ w)
               | Some vars => env.Parse vars
               end |}).
Proof.
  intros Heq. unfold Wrap. simpl. rewrite Heq. simpl.
  destruct (decide (exec.Cmd.Dir c = "")) as [Hdir|Hdir];
    destruct (Getwd w) as [wd [| | |]]; destruct (exec.Cmd.Env c);
    unfold ExitError.set_ChildEnv, ExitError.set_Dir; simpl;
    rewrite ?Hdir; reflexivity.
Qed.

Lemma Wrap_nil_pointer (w : World) (ee : ptr exec.ExitError.t) :
  Wrap w (error_exec ee) None = Panic NilDereference.
Proof. by destruct ee. Qed.

Lemma matched_inv (err : error) (cmd : ptr exec.Cmd.t) :
  matched err cmd = true →
  ∃ ee c, err = error_exec (Some ee) ∧ cmd = Some c
    ∧ os.ProcessState_eqb (exec.ExitError.ProcessState ee) (exec.Cmd.ProcessState c) = true.
Proof.
  destruct err as [| |[ee|]|]; try done. destruct cmd as [c|]; try done.
  intros Heq. by exists ee, c.
Qed.

(** C3: Wrap decorates exactly the matched calls, and passes its input
    through otherwise: a nil error gives nil, an error that is not an exit
    error of os/exec is returned as it is, whatever the command, and an exit
    error whose process state is not the one of the command is returned as
    it is. *)
Theorem Wrap_decorates_iff_matched (w : World) (err : error) (cmd : ptr exec.Cmd.t) :
  ((∃ x, Wrap w err cmd = Ok (error_execx x) ∧ ExitError_Unwrap x = err)
   ↔ matched err cmd = true)
  ∧ Wrap w error_nil cmd = Ok error_nil
  ∧ (is_exit_error err = false → Wrap w err cmd = Ok err)
  ∧ (∀ ee c,
       os.ProcessState_eqb (exec.ExitError.ProcessState ee) (exec.Cmd.ProcessState c) = false →
       Wrap w (error_exec (Some ee)) (Some c) = Ok (error_exec (Some ee))).
Proof.
  split; [|split; [apply Wrap_nil | split; [apply Wrap_not_exit_error | intros; by apply Wrap_mismatch]]].
  split.
  - intros (x & Hwrap & Hun). unfold ExitError_Unwrap in Hun. subst err.
    destruct (ExitError.ExitError x) as [ee|]; [|done].
    destruct cmd as [c|]; [|done]. simpl.
    destruct (os.ProcessState_eqb _ _) eqn:Heq; [done|].
    by rewrite Wrap_mismatch in Hwrap.
  - intros (ee & c & -> & -> & Heq)%matched_inv.
    rewrite (Wrap_matched _ _ _ Heq). eexists. split; reflexivity.
Qed.

(** C10: Wrap reads the command only once the error is known to be an exit
    error of os/exec. With a nil command, a nil error still gives nil and a
    foreign error is still returned as it is; an exit error with a nil
    command makes Wrap panic on the nil pointer. *)
Theorem Wrap_nil_command (w : World) :
  Wrap w error_nil None = Ok error_nil
  ∧ (∀ id, Wrap w (error_foreign id) None = Ok (error_foreign id))
  ∧ (∀ x, Wrap w (error_execx x) None = Ok (error_execx x))
  ∧ (∀ ee, Wrap w (error_exec ee) None = Panic NilDereference).
Proof.
  split; [reflexivity | split; [reflexivity | split; [reflexivity|]]].
  apply Wrap_nil_pointer.
Qed.

(** C7: in a matched call the decorated error takes the directory of the
    command when it is not empty; otherwise the working directory of the
    process when os.Getwd succeeds, and the empty string when it fails.
    Wrap returns in each case: a failing query never makes it fail. *)
Theorem Wrap_Dir (w : World) (ee : exec.ExitError.t) (c : exec.Cmd.t) :
  os.ProcessState_eqb (exec.ExitError.ProcessState ee) (exec.Cmd.ProcessState c) = true →
  ∃ e, Wrap w (error_exec (Some ee)) (Some c) = Ok (error_execx e)
    ∧ (exec.Cmd.Dir c ≠ "" → ExitError.Dir e = exec.Cmd.Dir c)
    ∧ (exec.Cmd.Dir c = "" →
       ∀ wd, Getwd w = (wd, error_nil) → ExitError.Dir e = wd)
    ∧ (exec.Cmd.Dir c = "" →
       ∀ wd err, Getwd w = (wd, err) → err ≠ error_nil → ExitError.Dir e = "").
Proof.
  intros Heq. eexists. split; [by apply Wrap_matched|]. simpl.
  split; [|split].
  - intros Hdir. by rewrite decide_False.
  - intros Hdir wd Hwd. by rewrite decide_True, Hwd.
  - intros Hdir wd err Hwd Herr. rewrite decide_True, Hwd by done.
    by destruct err.
Qed.

(** C8: decoration is additive. In a matched call, Unwrap of the decorated
    error is the very exit error that was wrapped, and its Error() is the
    message of that error. *)
Theorem Wrap_Unwrap_Error (w : World) (ee : exec.ExitError.t) (c : exec.Cmd.t) :
  os.ProcessState_eqb (exec.ExitError.ProcessState ee) (exec.Cmd.ProcessState c) = true →
  ∃ e, Wrap w (error_exec (Some ee)) (Some c) = Ok (error_execx e)
    ∧ ExitError_Unwrap e = error_exec (Some ee)
    ∧ ExitError_Error e = exec.ExitError.Error (Some ee)
    ∧ ExitError_Error e = Ok (os.String (exec.ExitError.ProcessState ee)).
Proof.
  intros Heq. eexists. split; [by apply Wrap_matched|].
  repeat split.
Qed.

(** C5: in a matched call the ParentEnv of the decorated error is the
    snapshot taken by this call, and its ChildEnv is that same ParentEnv
    when the command has no explicit environment, and the parse of the
    explicit environment when it has one, the empty one included. *)
Theorem Wrap_ChildEnv (w : World) (ee : exec.ExitError.t) (c : exec.Cmd.t) :
  os.ProcessState_eqb (exec.ExitError.ProcessState ee) (exec.Cmd.ProcessState c) = true →
  ∃ e, Wrap w (error_exec (Some ee)) (Some c) = Ok (error_execx e)
    ∧ ExitError.ParentEnv e = env.Variables (Environ w)
    ∧ (exec.Cmd.Env c = None → ExitError.ChildEnv e = ExitError.ParentEnv e)
    ∧ (∀ vars, exec.Cmd.Env c = Some vars → ExitError.ChildEnv e = env.Parse vars)
    ∧ (exec.Cmd.Env c = Some [] → ExitError.ChildEnv e = env.Parse []).
Proof.
  intros Heq. eexists. split; [by apply Wrap_matched|]. simpl.
  split; [reflexivity|]. split; [|split].
  - by intros ->.
  - by intros vars ->.
  - by intros ->.
Qed.

Lemma Merge_lookup (a b : env.Map) (k : string) :
  env.Merge a b !! k = match b !! k with Some v => Some v | None => a !! k end.
Proof.
  unfold env.Merge. rewrite lookup_union.
  destruct (b !! k), (a !! k); reflexivity.
Qed.

Lemma Merge_right_included (a b : env.Map) : b ⊆ env.Merge a b.
Proof. apply map_union_subseteq_l. Qed.

Lemma Merge_eq_right_iff (a b : env.Map) : b = env.Merge a b ↔ dom a ⊆ dom b.
Proof.
  split.
  - intros Hb k [v Hk]%elem_of_dom. apply elem_of_dom.
    rewrite Hb, Merge_lookup. destruct (b !! k); [done|]. by rewrite Hk.
  - intros Hdom. apply map_eq. intros k. rewrite Merge_lookup.
    destruct (b !! k) eqn:Hb; [done|].
    symmetry. apply not_elem_of_dom. intros Hk. apply Hdom in Hk.
    by apply not_elem_of_dom in Hb.
Qed.

(** C1, as amended: in a matched call, when the command has an explicit
    environment the ChildEnv of the decorated error is the parse of it alone.
    It is included in the merge of the ParentEnv snapshot with that parse,
    and equals the merge exactly when every variable of the snapshot is also
    set explicitly. When the command has no explicit environment, ChildEnv
    equals ParentEnv. *)
Theorem Wrap_ChildEnv_is_parse_not_merge
    (w : World) (ee : exec.ExitError.t) (c : exec.Cmd.t) :
  os.ProcessState_eqb (exec.ExitError.ProcessState ee) (exec.Cmd.ProcessState c) = true →
  ∃ e, Wrap w (error_exec (Some ee)) (Some c) = Ok (error_execx e)
    ∧ match exec.Cmd.Env c with
      | Some vars =>
          ExitError.ChildEnv e = env.Parse vars
          ∧ ExitError.ChildEnv e ⊆ env.Merge (ExitError.ParentEnv e) (env.Parse vars)
          ∧ (ExitError.ChildEnv e = env.Merge (ExitError.ParentEnv e) (env.Parse vars)
             ↔ dom (ExitError.ParentEnv e) ⊆ dom (env.Parse vars))
      | None => ExitError.ChildEnv e = ExitError.ParentEnv e
      end.
Proof.
  intros Heq. eexists. split; [by apply Wrap_matched|]. simpl.
  destruct (exec.Cmd.Env c) as [vars|]; [|reflexivity].
  split; [reflexivity|]. split; [apply Merge_right_included | apply Merge_eq_right_iff].
Qed.

End WrapProperties.

(** * The formatter of the decorated error *)

Lemma Fprintf_Fprintf (w : fmt.State) (a b : string) :
  fmt.Fprintf (fmt.Fprintf w a) b = fmt.Fprintf w (a +:+ b).
Proof. unfold fmt.Fprintf. simpl. by rewrite append_assoc. Qed.

Lemma formatBasic_returns (e : ExitError.t) (ee : exec.ExitError.t) (cl : string)
    (w : fmt.State) :
  ExitError.ExitError e = Some ee →
  ExitError_Cmdline e = Ok cl →
  formatBasic e w
  = Ok (fmt.Fprintf w
          (cl +:+ ": " +:+ os.String (exec.ExitError.ProcessState ee)
           +:+ match exec.ExitError.Stderr ee with
               | Some bytes => ": " +:+ String.string_of_list_byte bytes
               | None => ""
               end)).
Proof.
  intros Hee Hcl. unfold formatBasic. rewrite Hcl, Hee. simpl.
  destruct (exec.ExitError.Stderr ee) as [bytes|]; simpl.
  - by rewrite Fprintf_Fprintf, !append_assoc.
  - by rewrite append_empty_r.
Qed.

Section FormatProperties.
Context {envp : env.Pkg} {timep : time.Pkg}.

Lemma Format_other_verb (e : ExitError.t) (s : fmt.State) (verb : Z) :
  verb ≠ fmt.verb_v → ExitError_Format e s verb = Ok s.
Proof. intros Hverb. unfold ExitError_Format. by rewrite decide_True. Qed.

Lemma formatDetail_returns (e : ExitError.t) (ee : exec.ExitError.t)
    (ps : os.ProcessState) (cl : string) (w : fmt.State) :
  ExitError.ExitError e = Some ee →
  exec.ExitError.ProcessState ee = Some ps →
  ExitError_Cmdline e = Ok cl →
  formatDetail e w
  = Ok (fmt.Fprintf w
          ((cl +:+ ": " +:+ os.status ps
            +:+ match exec.ExitError.Stderr ee with
                | Some bytes => ": " +:+ String.string_of_list_byte bytes
                | None => ""
                end)
           +:+ fmt.LF
           +:+ "workdir: " +:+ ExitError.Dir e +:+ fmt.LF
           +:+ "user time: " +:+ time.Duration_String (os.utime ps) +:+ fmt.LF
           +:+ "system time: " +:+ time.Duration_String (os.stime ps) +:+ fmt.LF
           +:+ fmt.LF
           +:+ env.FormatDetail (ExitError.ChildEnv e))).
Proof.
  intros Hee Hps Hcl. unfold formatDetail.
  rewrite (formatBasic_returns e ee cl w Hee Hcl). simpl.
  unfold exec.ExitError.UserTime, exec.ExitError.SystemTime.
  rewrite Hee. simpl. rewrite Hps. simpl.
  by rewrite !Fprintf_Fprintf, !append_assoc.
Qed.

(** C4: the formatter follows the table of verbs and flags. When the command
    line renders as cl and the decorated error holds an exit error: under
    the verb v without the plus flag the output is cl, a colon and a space,
    the message of the exit error, and, when standard error was captured, a
    colon, a space and the captured bytes; under the verb v with the plus
    flag, the exit error holding a process state to read the times from, it
    is that line followed by an empty line, the workdir line, the user time
    and system time lines, an empty line and the detailed rendering of
    ChildEnv. Under any other verb, for every decorated error and every
    flag, nothing is written and the call returns. *)
Theorem Format_verb_flag_table (e : ExitError.t) (ee : exec.ExitError.t)
    (cl : string) (s : fmt.State) :
  ExitError.ExitError e = Some ee →
  ExitError_Cmdline e = Ok cl →
  let basic :=
    cl +:+ ": " +:+ os.String (exec.ExitError.ProcessState ee)
    +:+ match exec.ExitError.Stderr ee with
        | Some bytes => ": " +:+ String.string_of_list_byte bytes
        | None => ""
        end in
  (fmt.Flag s "+" = false →
   ExitError_Format e s fmt.verb_v = Ok (fmt.Fprintf s basic))
  ∧ (fmt.Flag s "+" = true →
     ∀ ps, exec.ExitError.ProcessState ee = Some ps →
     ExitError_Format e s fmt.verb_v
     = Ok (fmt.Fprintf s
             (basic +:+ fmt.LF
              +:+ "workdir: " +:+ ExitError.Dir e +:+ fmt.LF
              +:+ "user time: " +:+ time.Duration_String (os.utime ps) +:+ fmt.LF
              +:+ "system time: " +:+ time.Duration_String (os.stime ps) +:+ fmt.LF
              +:+ fmt.LF
              +:+ env.FormatDetail (ExitError.ChildEnv e))))
  ∧ (∀ (e' : ExitError.t) (s' : fmt.State) (verb : Z),
       verb ≠ fmt.verb_v → ExitError_Format e' s' verb = Ok s').
Proof.
  intros Hee Hcl basic. split; [|split].
  - intros Hflag. unfold ExitError_Format.
    rewrite decide_False by (intros Hv; by apply Hv).
    rewrite Hflag. by apply formatBasic_returns.
  - intros Hflag ps Hps. unfold ExitError_Format.
    rewrite decide_False by (intros Hv; by apply Hv).
    rewrite Hflag. subst basic. rewrite Hps. simpl.
    by apply formatDetail_returns.
  - intros e' s' verb. apply Format_other_verb.
Qed.

End FormatProperties.

(** C9: the basic format tells captured standard error from absent standard
    error by nil-ness. With a nil Stderr the output stops after the message;
    with a non-nil Stderr a colon, a space and the bytes follow, so a
    captured but empty Stderr leaves a trailing colon and space. *)
Theorem formatBasic_Stderr_presence (e : ExitError.t) (ee : exec.ExitError.t)
    (cl : string) (w : fmt.State) :
  ExitError.ExitError e = Some ee →
  ExitError_Cmdline e = Ok cl →
  (exec.ExitError.Stderr ee = None →
   formatBasic e w
   = Ok (fmt.Fprintf w (cl +:+ ": " +:+ os.String (exec.ExitError.ProcessState ee))))
  ∧ (∀ bytes, exec.ExitError.Stderr ee = Some bytes →
     formatBasic e w
     = Ok (fmt.Fprintf w (cl +:+ ": " +:+ os.String (exec.ExitError.ProcessState ee)
                          +:+ ": " +:+ String.string_of_list_byte bytes)))
  ∧ (exec.ExitError.Stderr ee = Some [] →
     formatBasic e w
     = Ok (fmt.Fprintf w (cl +:+ ": " +:+ os.String (exec.ExitError.ProcessState ee)
                          +:+ ": "))).
Proof.
  intros Hee Hcl. rewrite (formatBasic_returns e ee cl w Hee Hcl).
  split; [|split].
  - intros ->. by rewrite append_empty_r.
  - by intros bytes ->.
  - by intros ->.
Qed.

(** * The theorems at the sample values *)

Section Witnesses.
Import model.

Lemma Wrap_Dir_witness :
  os.ProcessState_eqb (exec.ExitError.ProcessState ee1) (exec.Cmd.ProcessState cmd1) = true
  ∧ os.ProcessState_eqb (exec.ExitError.ProcessState ee2) (exec.Cmd.ProcessState cmd2) = true
  ∧ (∃ e, Wrap world1 (error_exec (Some ee1)) (Some cmd1) = Ok (error_execx e)
        ∧ ExitError.Dir e = "/home/user")
  ∧ (∃ e, Wrap world2 (error_exec (Some ee1)) (Some cmd1) = Ok (error_execx e)
        ∧ ExitError.Dir e = "")
  ∧ (∃ e, Wrap world2 (error_exec (Some ee2)) (Some cmd2) = Ok (error_execx e)
        ∧ ExitError.Dir e = "/srv").
Proof.
  split; [reflexivity|]. split; [reflexivity|]. split; [|split].
  - destruct (Wrap_Dir world1 ee1 cmd1 eq_refl) as (e & Hwrap & _ & Hwd & _).
    exists e. split; [exact Hwrap|]. by apply Hwd.
  - destruct (Wrap_Dir world2 ee1 cmd1 eq_refl) as (e & Hwrap & _ & _ & Hfail).
    exists e. split; [exact Hwrap|]. by eapply Hfail.
  - destruct (Wrap_Dir world2 ee2 cmd2 eq_refl) as (e & Hwrap & Hdir & _).
    exists e. split; [exact Hwrap|]. by apply Hdir.
Defined.

Lemma Wrap_Unwrap_Error_witness :
  os.ProcessState_eqb (exec.ExitError.ProcessState ee1) (exec.Cmd.ProcessState cmd1) = true
  ∧ ∃ e, Wrap world1 (error_exec (Some ee1)) (Some cmd1) = Ok (error_execx e)
       ∧ ExitError_Unwrap e = error_exec (Some ee1)
       ∧ ExitError_Error e = Ok "exit status 1".
Proof.
  split; [reflexivity|].
  destruct (Wrap_Unwrap_Error world1 ee1 cmd1 eq_refl) as (e & Hwrap & Hun & _ & Herr).
  exists e. split; [exact Hwrap|]. split; [exact Hun | exact Herr].
Defined.

Lemma Wrap_ChildEnv_witness :
  os.ProcessState_eqb (exec.ExitError.ProcessState ee1) (exec.Cmd.ProcessState cmd1) = true
  ∧ os.ProcessState_eqb (exec.ExitError.ProcessState ee2) (exec.Cmd.ProcessState cmd2) = true
  ∧ (∃ e, Wrap world1 (error_exec (Some ee1)) (Some cmd1) = Ok (error_execx e)
        ∧ ExitError.ChildEnv e = Parse ["EXECX_TEST=on"])
  ∧ (∃ e, Wrap world1 (error_exec (Some ee2)) (Some cmd2) = Ok (error_execx e)
        ∧ ExitError.ChildEnv e = ExitError.ParentEnv e
        ∧ ExitError.ParentEnv e = Parse ["HOME=/root"; "PATH=/usr/bin"]).
Proof.
  split; [reflexivity|]. split; [reflexivity|]. split.
  - destruct (Wrap_ChildEnv world1 ee1 cmd1 eq_refl) as (e & Hwrap & _ & _ & Hsome & _).
    exists e. split; [exact Hwrap|]. by apply Hsome.
  - destruct (Wrap_ChildEnv world1 ee2 cmd2 eq_refl) as (e & Hwrap & Hparent & Hnone & _).
    exists e. split; [exact Hwrap|]. split; [by apply Hnone | exact Hparent].
Defined.

Lemma Wrap_ChildEnv_is_parse_not_merge_witness :
  os.ProcessState_eqb (exec.ExitError.ProcessState ee1) (exec.Cmd.ProcessState cmd1) = true
  ∧ ∃ e, Wrap world1 (error_exec (Some ee1)) (Some cmd1) = Ok (error_execx e)
       ∧ ExitError.ChildEnv e = Parse ["EXECX_TEST=on"]
       ∧ ExitError.ChildEnv e ⊆ env.Merge (ExitError.ParentEnv e) (Parse ["EXECX_TEST=on"]).
Proof.
  split; [reflexivity|].
  destruct (Wrap_ChildEnv_is_parse_not_merge world1 ee1 cmd1 eq_refl)
    as (e & Hwrap & Hparse & Hsub & _).
  exists e. split; [exact Hwrap|]. split; [exact Hparse | exact Hsub].
Defined.

(** C1, as stated, fails: for [cmd1], whose explicit environment sets
    EXECX_TEST only, in a process whose environment has HOME and PATH, the
    call is matched and the ChildEnv of the decorated error is not the merge
    of the ParentEnv snapshot with the parse of the explicit environment:
    HOME is bound in the merge and not in ChildEnv. *)
Lemma Wrap_ChildEnv_differs_from_merge :
  ∃ e, matched (error_exec (Some ee1)) (Some cmd1) = true
     ∧ exec.Cmd.Env cmd1 = Some ["EXECX_TEST=on"]
     ∧ Wrap world1 (error_exec (Some ee1)) (Some cmd1) = Ok (error_execx e)
     ∧ ExitError.ParentEnv e = env.Variables (Environ world1)
     ∧ ExitError.ChildEnv e
       ≠ env.Merge (ExitError.ParentEnv e) (env.Parse ["EXECX_TEST=on"]).
Proof.
  exists xe1. repeat split.
  intros Heq. apply (f_equal (fun m : env.Map => m !! "HOME")) in Heq.
  vm_compute in Heq. discriminate Heq.
Qed.

Lemma Format_verb_flag_table_witness :
  ExitError.ExitError xe1 = Some ee1
  ∧ ExitError_Cmdline xe1 = Ok "git fetch something"
  ∧ ExitError_Format xe1 state0 fmt.verb_v
    = Ok (fmt.Fprintf state0 "git fetch something: exit status 1: whoops")
  ∧ ExitError_Format xe1 state_plus fmt.verb_v
    = Ok (fmt.Fprintf state_plus
            ("git fetch something: exit status 1: whoops" +:+ fmt.LF
             +:+ "workdir: /home/user" +:+ fmt.LF
             +:+ "user time: 250ns" +:+ fmt.LF
             +:+ "system time: 0s" +:+ fmt.LF
             +:+ fmt.LF
             +:+ "EXECX_TEST=on"))
  ∧ ExitError_Format xe1 state_plus 100 = Ok state_plus.
Proof.
  split; [reflexivity|]. split; [reflexivity|].
  destruct (Format_verb_flag_table xe1 ee1 "git fetch something" state0 eq_refl eq_refl)
    as (Hbasic & _ & Hother).
  destruct (Format_verb_flag_table xe1 ee1 "git fetch something" state_plus eq_refl eq_refl)
    as (_ & Hdetail & _).
  split; [exact (Hbasic eq_refl)|].
  split; [exact (Hdetail eq_refl ps1 eq_refl)|].
  apply Hother. discriminate.
Defined.

Lemma formatBasic_Stderr_presence_witness :
  ExitError.ExitError xe_empty_stderr
  = Some {| exec.ExitError.addr := 13; exec.ExitError.ProcessState := Some ps2;
            exec.ExitError.Stderr := Some [] |}
  ∧ ExitError_Cmdline xe_empty_stderr = Ok "ls -l"
  ∧ formatBasic xe_empty_stderr state0 = Ok (fmt.Fprintf state0 "ls -l: exit status 1: ").
Proof.
  split; [reflexivity|]. split; [reflexivity|].
  destruct (formatBasic_Stderr_presence xe_empty_stderr _ "ls -l" state0 eq_refl eq_refl)
    as (_ & _ & Hempty).
  exact (Hempty eq_refl).
Defined.

End Witnesses.

(** * Further properties of the renderer *)

Lemma take_while_Forall {A} (f : A → bool) (l : list A) :
  Forall (fun y => f y = true) (take_while f l).
Proof.
  induction l as [|x l IH]; simpl; [constructor|].
  destruct (f x) eqn:Hx; by constructor.
Qed.

Lemma filepath_Base_cases (path : string) :
  filepath_Base path = "/" ∨ segment (filepath_Base path).
Proof.
  unfold filepath_Base. destruct (decide (path = "")) as [_|_].
  - right. split; [done|]. by repeat constructor.
  - set (last := rev (take_while _ _)).
    destruct (decide (String.string_of_list_ascii last = "")) as [_|Hne]; [by left|].
    right. split; [done|].
    rewrite String.list_ascii_of_string_of_list_ascii. subst last.
    apply Forall_rev. eapply Forall_impl; [apply take_while_Forall|].
    intros c Hc. simpl in Hc. by destruct (IsPathSeparator c).
Qed.

Lemma filepath_Base_idemp (path : string) :
  filepath_Base (filepath_Base path) = filepath_Base path.
Proof.
  destruct (filepath_Base_cases path) as [-> | Hseg]; [reflexivity|].
  by apply filepath_Base_segment.
Qed.

Lemma filepath_Base_nonempty (path : string) : filepath_Base path ≠ "".
Proof.
  destruct (filepath_Base_cases path) as [-> | [Hne _]]; done.
Qed.

Lemma concat_cons_cons (sep x y : string) (l : list string) :
  String.concat sep (x :: y :: l) = x +:+ sep +:+ String.concat sep (y :: l).
Proof. reflexivity. Qed.

Lemma concat_head_nonempty (sep x : string) (l : list string) :
  x ≠ "" → String.concat sep (x :: l) ≠ "".
Proof.
  intros Hx. destruct x as [|c x]; [done|].
  destruct l as [|y l]; [done|].
  by rewrite concat_cons_cons, append_cons.
Qed.

Lemma cmdline_inv (path : string) (args : slice string) (s : string) :
  cmdline path args = Ok s →
  ∃ arg0 rest, args = Some (arg0 :: rest)
    ∧ s = String.concat " " (filepath_Base path :: rest).
Proof.
  destruct args as [[|arg0 rest]|]; try done.
  rewrite cmdline_cons. intros [= <-]. by exists arg0, rest.
Qed.

(** X12: the rendering depends on the path only through its base name, and
    on the arguments only from index 1 onward: the directory part of the
    path and the value of args[0] never show. *)
Theorem cmdline_depends_on_base_and_tail (path : string) :
  (∀ args, cmdline (filepath_Base path) args = cmdline path args)
  ∧ (∀ arg0 arg0' rest,
       cmdline path (Some (arg0 :: rest)) = cmdline path (Some (arg0' :: rest))).
Proof.
  split; [|reflexivity].
  intros [[|arg0 rest]|]; try reflexivity.
  by rewrite !cmdline_cons, filepath_Base_idemp.
Qed.

(** X13: the renderer does not quote. An argument that contains a space
    renders exactly as the two arguments it would split into, so the
    rendering does not determine the argument sequence. *)
Theorem cmdline_does_not_quote (path arg0 a b : string) (rest : list string) :
  cmdline path (Some (arg0 :: (a +:+ " " +:+ b) :: rest))
  = cmdline path (Some (arg0 :: a :: b :: rest)).
Proof.
  rewrite !cmdline_cons. f_equal.
  rewrite !concat_cons_cons. f_equal. f_equal.
  destruct rest as [|r rest]; [reflexivity|].
  by rewrite !concat_cons_cons, !append_assoc.
Qed.

(** X14: a rendered command line is never the empty string, whatever the
    path and the arguments: the base name of a path is never empty (the
    empty path has the base name "."). *)
Theorem cmdline_never_empty (path : string) (args : slice string) (s : string) :
  cmdline path args = Ok s → s ≠ "".
Proof.
  intros (arg0 & rest & _ & ->)%cmdline_inv.
  apply concat_head_nonempty, filepath_Base_nonempty.
Qed.

Lemma cmdline_never_empty_witness :
  cmdline "" (Some [""]) = Ok "." ∧ "." ≠ "".
Proof.
  split; [reflexivity|].
  exact (cmdline_never_empty "" (Some [""]) "." eq_refl).
Defined.

(** X1: Cmdline reads the command through the pointer. A nil command makes
    it panic on the nil pointer, a command without arguments makes it panic
    on the slice bounds, and otherwise it returns the base name of the path
    followed by the arguments after the first. *)
Theorem Cmdline_of_command (cmd : ptr exec.Cmd.t) :
  (cmd = None → Cmdline cmd = Panic NilDereference)
  ∧ (∀ c, cmd = Some c → len (exec.Cmd.Args c) = 0 →
       Cmdline cmd = Panic (SliceBounds 1 0))
  ∧ (∀ c arg0 rest, cmd = Some c → exec.Cmd.Args c = Some (arg0 :: rest) →
       Cmdline cmd = Ok (String.concat " " (filepath_Base (exec.Cmd.Path c) :: rest)))
  ∧ returns (Cmdline cmd)
    = match cmd with
      | None => false
      | Some c => bool_decide (1 ≤ len (exec.Cmd.Args c))
      end.
Proof.
  split; [by intros ->|]. split; [|split].
  - intros c -> Hlen. unfold Cmdline, cmdline. simpl.
    by rewrite slice_from_1_empty.
  - intros c arg0 rest -> Hargs. unfold Cmdline. simpl.
    by rewrite Hargs, cmdline_cons.
  - destruct cmd as [c|]; [|reflexivity]. unfold Cmdline. simpl.
    by destruct (exec.Cmd.Args c) as [[|arg0 rest]|].
Qed.

(** * Further properties of Wrap *)

Section WrapFurther.
Context {envp : env.Pkg}.

Lemma Wrap_exit_error_cases (w : World) (ee : ptr exec.ExitError.t)
    (cmd : ptr exec.Cmd.t) :
  (ee = None ∨ cmd = None) ∧ Wrap w (error_exec ee) cmd = Panic NilDereference
  ∨ (∃ e c, ee = Some e ∧ cmd = Some c
       ∧ matched (error_exec ee) cmd = false
       ∧ Wrap w (error_exec ee) cmd = Ok (error_exec ee))
  ∨ (∃ e c x, ee = Some e ∧ cmd = Some c
       ∧ matched (error_exec ee) cmd = true
       ∧ Wrap w (error_exec ee) cmd = Ok (error_execx x)).
Proof.
  destruct ee as [e|]; [|left; split; [by left | reflexivity]].
  destruct cmd as [c|]; [|left; split; [by right | reflexivity]].
  right.
  destruct (os.ProcessState_eqb (exec.ExitError.ProcessState e)
              (exec.Cmd.ProcessState c)) eqn:Heq.
  - right. eexists e, c, _.
    split; [reflexivity|]. split; [reflexivity|]. split; [exact Heq|].
    by apply Wrap_matched.
  - left. exists e, c.
    split; [reflexivity|]. split; [reflexivity|]. split; [exact Heq|].
    by apply Wrap_mismatch.
Qed.

(** X2: in a matched call Wrap copies the path and the arguments of the
    command, so the Cmdline method of the decorated error gives what Cmdline
    gives for the command, the panic on an empty argument sequence
    included. *)
Theorem Wrap_copies_Path_Args (w : World) (ee : exec.ExitError.t) (c : exec.Cmd.t) :
  os.ProcessState_eqb (exec.ExitError.ProcessState ee) (exec.Cmd.ProcessState c) = true →
  ∃ e, Wrap w (error_exec (Some ee)) (Some c) = Ok (error_execx e)
    ∧ ExitError.Path e = exec.Cmd.Path c
    ∧ ExitError.Args e = exec.Cmd.Args c
    ∧ ExitError_Cmdline e = Cmdline (Some c).
Proof.
  intros Heq. eexists. split; [by apply Wrap_matched|]. repeat split.
Qed.

(** X3: wrapping is idempotent. Whatever Wrap returns for an error and a
    command, wrapping that result again with the same command, at any later
    state of the process, returns it as it is: a decorated error is never
    decorated twice. *)
Theorem Wrap_idempotent (w w' : World) (err r : error) (cmd : ptr exec.Cmd.t) :
  Wrap w err cmd = Ok r → Wrap w' r cmd = Ok r.
Proof.
  destruct err as [|id|ee|x]; try (by intros [= <-]).
  destruct (Wrap_exit_error_cases w ee cmd)
    as [[_ Hw] | [(e & c & -> & -> & Hm & Hw) | (e & c & x & -> & -> & _ & Hw)]];
    rewrite Hw; [done| |]; intros [= <-]; [|reflexivity].
  simpl in Hm. by apply Wrap_mismatch.
Qed.

(** X4: Wrap keeps nil apart from non-nil. Its result is the nil error only
    for the nil error, and it never returns an interface value that holds a
    nil pointer to an exit error. *)
Theorem Wrap_nil_iff_nil (w : World) (err r : error) (cmd : ptr exec.Cmd.t) :
  Wrap w err cmd = Ok r →
  (r = error_nil ↔ err = error_nil) ∧ r ≠ error_exec None.
Proof.
  destruct err as [|id|ee|x]; try (intros [= <-]; by split).
  destruct (Wrap_exit_error_cases w ee cmd)
    as [[_ Hw] | [(e & c & -> & -> & _ & Hw) | (e & c & x & -> & -> & _ & Hw)]];
    rewrite Hw; [done| |]; intros [= <-]; by split.
Qed.

(** X5: Wrap panics exactly when the error holds a pointer to an exit error
    and either that pointer or the command is nil; the panic is then the
    nil pointer dereference. In every other case it returns. *)
Theorem Wrap_panics_iff (w : World) (err : error) (cmd : ptr exec.Cmd.t) :
  (returns (Wrap w err cmd) = false
   ↔ ∃ ee, err = error_exec ee ∧ (ee = None ∨ cmd = None))
  ∧ (∀ p, Wrap w err cmd = Panic p → p = NilDereference).
Proof.
  destruct err as [|id|ee|x];
    try (split; [split; [done | by intros (? & ? & _)] | done]).
  destruct (Wrap_exit_error_cases w ee cmd)
    as [[Hnil Hw] | [(e & c & -> & -> & _ & Hw) | (e & c & x & -> & -> & _ & Hw)]];
    rewrite Hw; simpl.
  - split; [|by intros p [= <-]]. split; [|done]. intros _. by exists ee.
  - split; [|done]. split; [done|]. by intros (? & [= <-] & [?|?]).
  - split; [|done]. split; [done|]. by intros (? & [= <-] & [?|?]).
Qed.

(** X6: what Wrap reads of the process. A call that is not matched does not
    depend on the state of the process at all; a matched call whose command
    names its directory depends on it only through the environment, the
    working directory not being consulted. *)
Theorem Wrap_reads_of_World (w w' : World) (err : error) (cmd : ptr exec.Cmd.t) :
  (matched err cmd = false → Wrap w err cmd = Wrap w' err cmd)
  ∧ (∀ c, cmd = Some c → exec.Cmd.Dir c ≠ "" → Environ w = Environ w' →
       Wrap w err cmd = Wrap w' err cmd).
Proof.
  split.
  - destruct err as [|id|[ee|]|x]; try reflexivity.
    destruct cmd as [c|]; [|reflexivity]. intros Hm. simpl in Hm.
    by rewrite !(Wrap_mismatch _ _ _ Hm).
  - intros c -> Hdir Henv. destruct err as [|id|[ee|]|x]; try reflexivity.
    destruct (os.ProcessState_eqb (exec.ExitError.ProcessState ee)
                (exec.Cmd.ProcessState c)) eqn:Heq.
    + rewrite !(Wrap_matched _ _ _ Heq), Henv.
      destruct (decide (exec.Cmd.Dir c = "")); [done | reflexivity].
    + by rewrite !(Wrap_mismatch _ _ _ Heq).
Qed.

(** X15: process states are compared as pointers, and two nil pointers are
    equal. The zero exit error, which holds no process state, is therefore
    matched by a command that was never run; the message of the decorated
    error is then the text of the nil process state. *)
Theorem Wrap_nil_identities_match (w : World) (ee : exec.ExitError.t) (c : exec.Cmd.t) :
  exec.ExitError.ProcessState ee = None →
  exec.Cmd.ProcessState c = None →
  ∃ e, Wrap w (error_exec (Some ee)) (Some c) = Ok (error_execx e)
    ∧ ExitError_Unwrap e = error_exec (Some ee)
    ∧ ExitError_Error e = Ok "<nil>".
Proof.
  intros Hee Hc. eexists. split.
  - apply Wrap_matched. by rewrite Hee, Hc.
  - split; [reflexivity|]. unfold ExitError_Error, exec.ExitError.Error.
    simpl. by rewrite Hee.
Qed.

End WrapFurther.

(** * Further properties of the formatter *)

Lemma Fprintf_empty (w : fmt.State) : fmt.Fprintf w "" = w.
Proof. destruct w as [fl b]. unfold fmt.Fprintf. simpl. by rewrite append_empty_r. Qed.

Lemma formatBasic_inv (e : ExitError.t) (w w' : fmt.State) :
  formatBasic e w = Ok w' →
  ∃ ee cl, ExitError.ExitError e = Some ee ∧ ExitError_Cmdline e = Ok cl.
Proof.
  unfold formatBasic.
  destruct (ExitError_Cmdline e) as [cl|]; simpl; [|done].
  destruct (ExitError.ExitError e) as [ee|]; simpl; [|done].
  intros _. by exists ee, cl.
Qed.

Lemma formatBasic_empty_Args (e : ExitError.t) (w : fmt.State) :
  len (ExitError.Args e) = 0 → formatBasic e w = Panic (SliceBounds 1 0).
Proof.
  intros Hlen. unfold formatBasic, ExitError_Cmdline, cmdline.
  by rewrite slice_from_1_empty.
Qed.



Section FormatFurther.
Context {envp : env.Pkg} {timep : time.Pkg}.

Lemma formatDetail_inv (e : ExitError.t) (w w' : fmt.State) :
  formatDetail e w = Ok w' →
  ∃ ee ps cl, ExitError.ExitError e = Some ee
    ∧ exec.ExitError.ProcessState ee = Some ps
    ∧ ExitError_Cmdline e = Ok cl.
Proof.
  unfold formatDetail.
  destruct (formatBasic e w) as [wb|] eqn:Hb; simpl; [|done].
  apply formatBasic_inv in Hb as (ee & cl & Hee & Hcl).
  unfold exec.ExitError.UserTime, exec.ExitError.SystemTime.
  rewrite Hee. simpl.
  destruct (exec.ExitError.ProcessState ee) as [ps|] eqn:Hps; simpl; [|done].
  intros _. by exists ee, ps, cl.
Qed.


(** X10: formatting is a pure write. When Format returns, the state it
    leaves is the given one with some text appended, earlier output and the
    flags untouched, and that text depends on the decorated error, the verb
    and the flags only: any state with the same flags receives the same
    text. *)
Theorem Format_appends_text (e : ExitError.t) (s s' : fmt.State) (verb : Z) :
  ExitError_Format e s verb = Ok s' →
  ∃ out, s' = fmt.Fprintf s out
    ∧ fmt.flags s' = fmt.flags s
    ∧ fmt.buf s' = fmt.buf s +:+ out
    ∧ ∀ s0, fmt.flags s0 = fmt.flags s →
        ExitError_Format e s0 verb = Ok (fmt.Fprintf s0 out).
Proof.
  unfold ExitError_Format.
  assert (Hflag : ∀ s0, fmt.flags s0 = fmt.flags s →
                        fmt.Flag s0 "+" = fmt.Flag s "+")
    by (intros s0 Hs0; unfold fmt.Flag; by rewrite Hs0).
  destruct (decide (verb ≠ fmt.verb_v)) as [_|_].
  - intros [= <-]. exists "". rewrite Fprintf_empty.
    repeat split; [by rewrite append_empty_r|].
    intros s0 _. by rewrite Fprintf_empty.
  - destruct (fmt.Flag s "+") eqn:Hplus; intros Hfmt.
    + pose proof Hfmt as (ee & ps & cl & Hee & Hps & Hcl)%formatDetail_inv.
      rewrite (formatDetail_returns e ee ps cl s Hee Hps Hcl) in Hfmt.
      injection Hfmt as <-. eexists. repeat split.
      intros s0 Hs0. rewrite (Hflag s0 Hs0).
      apply (formatDetail_returns e ee ps cl s0 Hee Hps Hcl).
    + pose proof Hfmt as (ee & cl & Hee & Hcl)%formatBasic_inv.
      rewrite (formatBasic_returns e ee cl s Hee Hcl) in Hfmt.
      injection Hfmt as <-. eexists. repeat split.
      intros s0 Hs0. rewrite (Hflag s0 Hs0).
      apply (formatBasic_returns e ee cl s0 Hee Hcl).
Qed.

(** X11: the detailed format extends the basic one. When formatDetail
    returns, formatBasic returns on the same input, and the detailed output
    is the basic output followed by a line feed and the workdir line. *)
Theorem formatDetail_extends_formatBasic (e : ExitError.t) (w wd : fmt.State) :
  formatDetail e w = Ok wd →
  ∃ wb rest, formatBasic e w = Ok wb
    ∧ wd = fmt.Fprintf wb
             (fmt.LF +:+ "workdir: " +:+ ExitError.Dir e +:+ fmt.LF +:+ rest).
Proof.
  intros Hd.
  pose proof Hd as (ee & ps & cl & Hee & Hps & Hcl)%formatDetail_inv.
  rewrite (formatDetail_returns e ee ps cl w Hee Hps Hcl) in Hd.
  injection Hd as <-.
  rewrite (formatBasic_returns e ee cl w Hee Hcl). eexists _, _.
  split; [reflexivity|]. rewrite Fprintf_Fprintf, Hps. simpl.
  by rewrite !append_assoc.
Qed.

(** X7: Wrap followed by the basic format. For a matched call whose command
    has arguments, formatting the decorated error under the verb v without
    the plus flag writes the base name of the command path and the arguments
    after the first, joined by spaces, then a colon and a space, the message
    of the exit error, and the captured standard error if there is one. *)
Theorem Wrap_then_Format_basic (w : World) (ee : exec.ExitError.t) (c : exec.Cmd.t)
    (arg0 : string) (rest : list string) (s : fmt.State) :
  os.ProcessState_eqb (exec.ExitError.ProcessState ee) (exec.Cmd.ProcessState c) = true →
  exec.Cmd.Args c = Some (arg0 :: rest) →
  fmt.Flag s "+" = false →
  ∃ e, Wrap w (error_exec (Some ee)) (Some c) = Ok (error_execx e)
    ∧ ExitError_Format e s fmt.verb_v
      = Ok (fmt.Fprintf s
              (String.concat " " (filepath_Base (exec.Cmd.Path c) :: rest)
               +:+ ": " +:+ os.String (exec.ExitError.ProcessState ee)
               +:+ match exec.ExitError.Stderr ee with
                   | Some bytes => ": " +:+ String.string_of_list_byte bytes
                   | None => ""
                   end)).
Proof.
  intros Heq Hargs Hplus. eexists. split; [by apply Wrap_matched|].
  unfold ExitError_Format. rewrite decide_False by (intros Hv; by apply Hv).
  rewrite Hplus. apply formatBasic_returns; [reflexivity|].
  unfold ExitError_Cmdline. simpl. by rewrite Hargs, cmdline_cons.
Qed.

(** X8: a command without arguments can be wrapped but not formatted. For a
    matched call whose command has an empty argument sequence Wrap returns a
    decorated error; its Error method still gives the message and Format
    under a verb other than v still writes nothing, but Format under the
    verb v panics on the slice bounds, with or without the plus flag. *)
Theorem Wrap_then_Format_empty_Args (w : World) (ee : exec.ExitError.t)
    (c : exec.Cmd.t) :
  os.ProcessState_eqb (exec.ExitError.ProcessState ee) (exec.Cmd.ProcessState c) = true →
  len (exec.Cmd.Args c) = 0 →
  ∃ e, Wrap w (error_exec (Some ee)) (Some c) = Ok (error_execx e)
    ∧ ExitError_Error e = Ok (os.String (exec.ExitError.ProcessState ee))
    ∧ (∀ s, ExitError_Format e s fmt.verb_v = Panic (SliceBounds 1 0))
    ∧ (∀ s verb, verb ≠ fmt.verb_v → ExitError_Format e s verb = Ok s).
Proof.
  intros Heq Hlen. eexists. split; [by apply Wrap_matched|].
  split; [reflexivity|]. split; [|intros s verb; apply Format_other_verb].
  intros s. unfold ExitError_Format.
  rewrite decide_False by (intros Hv; by apply Hv).
  destruct (fmt.Flag s "+"); [unfold formatDetail|];
    by rewrite formatBasic_empty_Args.
Qed.

End FormatFurther.

(** * The further properties at the sample values *)

Section FurtherWitnesses.
Import model.

Lemma Wrap_copies_Path_Args_witness :
  os.ProcessState_eqb (exec.ExitError.ProcessState ee1) (exec.Cmd.ProcessState cmd1) = true
  ∧ ∃ e, Wrap world1 (error_exec (Some ee1)) (Some cmd1) = Ok (error_execx e)
       ∧ ExitError.Path e = "/usr/bin/git"
       ∧ ExitError_Cmdline e = Ok "git fetch something".
Proof.
  split; [reflexivity|].
  destruct (Wrap_copies_Path_Args world1 ee1 cmd1 eq_refl)
    as (e & Hwrap & Hpath & _ & Hcl).
  exists e. split; [exact Hwrap|]. split; [exact Hpath | exact Hcl].
Defined.

Lemma Wrap_idempotent_witness :
  Wrap world1 (error_exec (Some ee1)) (Some cmd1) = Ok (error_execx xe1)
  ∧ Wrap world2 (error_execx xe1) (Some cmd1) = Ok (error_execx xe1)
  ∧ Wrap world1 (error_exec (Some ee1)) (Some cmd2) = Ok (error_exec (Some ee1))
  ∧ Wrap world2 (error_exec (Some ee1)) (Some cmd2) = Ok (error_exec (Some ee1)).
Proof.
  split; [reflexivity|].
  split; [exact (Wrap_idempotent world1 world2 (error_exec (Some ee1))
                  (error_execx xe1) (Some cmd1) eq_refl)|].
  split; [reflexivity|].
  exact (Wrap_idempotent world1 world2 (error_exec (Some ee1))
           (error_exec (Some ee1)) (Some cmd2) eq_refl).
Defined.

Lemma Wrap_nil_iff_nil_witness :
  Wrap world1 (error_exec (Some ee1)) (Some cmd2) = Ok (error_exec (Some ee1))
  ∧ (error_exec (Some ee1) = error_nil ↔ error_exec (Some ee1) = error_nil)
  ∧ error_exec (Some ee1) ≠ error_exec None.
Proof.
  split; [reflexivity|].
  exact (Wrap_nil_iff_nil world1 (error_exec (Some ee1)) (error_exec (Some ee1))
           (Some cmd2) eq_refl).
Defined.

Lemma Wrap_nil_identities_match_witness :
  exec.ExitError.ProcessState ee_zero = None
  ∧ exec.Cmd.ProcessState cmd_never_run = None
  ∧ ∃ e, Wrap world1 (error_exec (Some ee_zero)) (Some cmd_never_run) = Ok (error_execx e)
       ∧ ExitError_Error e = Ok "<nil>".
Proof.
  split; [reflexivity|]. split; [reflexivity|].
  destruct (Wrap_nil_identities_match world1 ee_zero cmd_never_run eq_refl eq_refl)
    as (e & Hwrap & _ & Herr).
  exists e. split; [exact Hwrap | exact Herr].
Defined.

Lemma Wrap_then_Format_basic_witness :
  os.ProcessState_eqb (exec.ExitError.ProcessState ee1) (exec.Cmd.ProcessState cmd1) = true
  ∧ exec.Cmd.Args cmd1 = Some ["git"; "fetch"; "something"]
  ∧ fmt.Flag state0 "+" = false
  ∧ ∃ e, Wrap world1 (error_exec (Some ee1)) (Some cmd1) = Ok (error_execx e)
       ∧ ExitError_Format e state0 fmt.verb_v
         = Ok (fmt.Fprintf state0 "git fetch something: exit status 1: whoops").
Proof.
  split; [reflexivity|]. split; [reflexivity|]. split; [reflexivity|].
  exact (Wrap_then_Format_basic world1 ee1 cmd1 "git" ["fetch"; "something"] state0
           eq_refl eq_refl eq_refl).
Defined.

Lemma Wrap_then_Format_empty_Args_witness :
  os.ProcessState_eqb (exec.ExitError.ProcessState ee1) (exec.Cmd.ProcessState cmd_noargs) = true
  ∧ len (exec.Cmd.Args cmd_noargs) = 0
  ∧ ∃ e, Wrap world1 (error_exec (Some ee1)) (Some cmd_noargs) = Ok (error_execx e)
       ∧ ExitError_Error e = Ok "exit status 1"
       ∧ ExitError_Format e state0 fmt.verb_v = Panic (SliceBounds 1 0)
       ∧ ExitError_Format e state_plus fmt.verb_v = Panic (SliceBounds 1 0).
Proof.
  split; [reflexivity|]. split; [reflexivity|].
  destruct (Wrap_then_Format_empty_Args world1 ee1 cmd_noargs eq_refl eq_refl)
    as (e & Hwrap & Herr & Hpanic & _).
  exists e. split; [exact Hwrap|]. split; [exact Herr|].
  split; apply Hpanic.
Defined.

Lemma Format_appends_text_witness :
  ExitError_Format xe1 state0 fmt.verb_v
  = Ok (fmt.Fprintf state0 "git fetch something: exit status 1: whoops")
  ∧ ∃ out, fmt.buf (fmt.Fprintf state0 "git fetch something: exit status 1: whoops")
           = fmt.buf state0 +:+ out
         ∧ ExitError_Format xe1 {| fmt.flags := []; fmt.buf := "error: " |} fmt.verb_v
           = Ok (fmt.Fprintf {| fmt.flags := []; fmt.buf := "error: " |} out).
Proof.
  split; [reflexivity|].
  destruct (Format_appends_text xe1 state0
              (fmt.Fprintf state0 "git fetch something: exit status 1: whoops")
              fmt.verb_v eq_refl)
    as (out & _ & _ & Hbuf & Hany).
  exists out. split; [exact Hbuf|]. by apply Hany.
Defined.

Lemma formatDetail_extends_formatBasic_witness :
  (∃ wd, formatDetail xe1 state_plus = Ok wd)
  ∧ ∃ wb, formatBasic xe1 state_plus = Ok wb.
Proof.
  split; [by eexists|].
  destruct (formatDetail_extends_formatBasic xe1 state_plus _ eq_refl)
    as (wb & rest & Hb & _).
  by exists wb.
Defined.

End FurtherWitnesses.
